(** * Verification of the static-buffer vector kernel (src/wasm/rust/src/lib.rs)

    The kernel owns three statically allocated buffers [BUFFER_A],
    [BUFFER_B] and [RESULT] of [CAPACITY] f64 elements each, and exports
    five vector operations over them ([sum], [dot], [mul], [scale],
    [sum_simd]) plus four introspection accessors.

    The model is parametric in the scalar arithmetic (class [Scalar]); the
    source's f64 is the instance [f64_scalar] on Rocq's primitive IEEE-754
    binary64 floats.  The buffers are the state of a small state-and-error
    monad [M]: the unchecked accessors [StaticBuffer::get] and
    [StaticBuffer::set] are modelled by [get] and [set], which report
    [OutOfBounds] instead of touching memory outside a buffer, so an
    operation that never faults never accessed memory out of bounds. *)

From Stdlib Require Import Arith Lia List NArith Floats.
Import ListNotations.

(** ** Scalars *)

Class Scalar (F : Type) := {
  fzero : F;
  fadd : F -> F -> F;
  fmul : F -> F -> F
}.

(** f64 as in the source: [0.0], [+] and [*] of IEEE-754 binary64. *)
#[export] Instance f64_scalar : Scalar float := {
  fzero := 0%float;
  fadd := PrimFloat.add;
  fmul := PrimFloat.mul
}.

(** ** Buffer pool *)

(** [const CAPACITY: usize = 100_000;] *)
Definition CAPACITY : nat := 100000.

(** The three statics [BUFFER_A], [BUFFER_B], [RESULT]. *)
Inductive buffer := BUFFER_A | BUFFER_B | RESULT.

(** Contents of the three buffers, indexed by element. *)
Record mem (F : Type) := Mem {
  buf_a : nat -> F;
  buf_b : nat -> F;
  buf_result : nat -> F
}.
Arguments Mem {F}.
Arguments buf_a {F}.
Arguments buf_b {F}.
Arguments buf_result {F}.

Definition contents {F} (m : mem F) (b : buffer) : nat -> F :=
  match b with
  | BUFFER_A => buf_a m
  | BUFFER_B => buf_b m
  | RESULT => buf_result m
  end.

Definition update {F} (f : nat -> F) (i : nat) (v : F) : nat -> F :=
  fun j => if Nat.eqb j i then v else f j.

Definition store {F} (m : mem F) (b : buffer) (i : nat) (v : F) : mem F :=
  match b with
  | BUFFER_A => Mem (update (buf_a m) i v) (buf_b m) (buf_result m)
  | BUFFER_B => Mem (buf_a m) (update (buf_b m) i v) (buf_result m)
  | RESULT => Mem (buf_a m) (buf_b m) (update (buf_result m) i v)
  end.

(** ** The state-and-error monad of the kernel *)

(** [OutOfBounds b i]: an access to element [i] of [b] outside the buffer
    (undefined behaviour in the source).  [OutOfFuel]: a [while] loop of the
    model ran out of its iteration budget. *)
Inductive fault := OutOfBounds (b : buffer) (i : nat) | OutOfFuel.

Definition M (F A : Type) := mem F -> fault + (A * mem F).

Definition ret {F A} (x : A) : M F A := fun m => inr (x, m).

Definition bind {F A B} (c : M F A) (k : A -> M F B) : M F B :=
  fun m => match c m with
           | inl e => inl e
           | inr (x, m') => k x m'
           end.

Notation "x <- c1 ;; c2" := (bind c1 (fun x => c2))
  (at level 61, c1 at next level, right associativity).
Notation "' pat <- c1 ;; c2" := (bind c1 (fun x => match x with pat => c2 end))
  (at level 61, pat pattern, c1 at next level, right associativity).

(** [unsafe fn get(&self, i: usize) -> f64 { *self.as_ptr().add(i) }] *)
Definition get {F} (b : buffer) (i : nat) : M F F :=
  fun m => if i <? CAPACITY then inr (contents m b i, m)
           else inl (OutOfBounds b i).

(** [unsafe fn set(&self, i: usize, val: f64) { *self.as_mut_ptr().add(i) = val; }] *)
Definition set {F} (b : buffer) (i : nat) (v : F) : M F unit :=
  fun m => if i <? CAPACITY then inr (tt, store m b i v)
           else inl (OutOfBounds b i).

(** [for i in lo..lo+n { body }] with an accumulator. *)
Fixpoint for_range {F A} (lo n : nat) (body : nat -> A -> M F A) (acc : A)
  : M F A :=
  match n with
  | 0 => ret acc
  | S n' => acc' <- body lo acc ;; for_range (S lo) n' body acc'
  end.

(** [while cond { body }] with an iteration budget [fuel]. *)
Fixpoint while_loop {F A} (fuel : nat) (cond : A -> bool) (body : A -> M F A)
  (st : A) : M F A :=
  match fuel with
  | 0 => fun _ => inl OutOfFuel
  | S fuel' =>
      if cond st then st' <- body st ;; while_loop fuel' cond body st'
      else ret st
  end.

(** ** The exported operations *)

Section Operations.
Context {F : Type} `{Scalar F}.

(** [let len = (len as usize).min(CAPACITY);] *)
Definition clamp (len : nat) : nat := Nat.min len CAPACITY.

(** Loop body of [sum]: [s += BUFFER_A.get(i);] *)
Definition sum_body (i : nat) (s : F) : M F F :=
  x <- get BUFFER_A i ;; ret (fadd s x).

(** [pub extern "C" fn sum(len: u32) -> f64] *)
Definition sum (len : nat) : M F F :=
  let len := clamp len in
  for_range 0 len sum_body fzero.

(** Loop body of [dot]: [d += BUFFER_A.get(i) * BUFFER_B.get(i);] *)
Definition dot_body (i : nat) (d : F) : M F F :=
  a <- get BUFFER_A i ;; b <- get BUFFER_B i ;; ret (fadd d (fmul a b)).

(** [pub extern "C" fn dot(len: u32) -> f64] *)
Definition dot (len : nat) : M F F :=
  let len := clamp len in
  for_range 0 len dot_body fzero.

(** Loop body of [mul]: [RESULT.set(i, BUFFER_A.get(i) * BUFFER_B.get(i));] *)
Definition mul_body (i : nat) (_ : unit) : M F unit :=
  a <- get BUFFER_A i ;; b <- get BUFFER_B i ;; set RESULT i (fmul a b).

(** [pub extern "C" fn mul(len: u32)] *)
Definition mul (len : nat) : M F unit :=
  let len := clamp len in
  for_range 0 len mul_body tt.

(** Loop body of [scale]: [BUFFER_A.set(i, BUFFER_A.get(i) * scalar);] *)
Definition scale_body (scalar : F) (i : nat) (_ : unit) : M F unit :=
  a <- get BUFFER_A i ;; set BUFFER_A i (fmul a scalar).

(** [pub extern "C" fn scale(scalar: f64, len: u32)] *)
Definition scale (scalar : F) (len : nat) : M F unit :=
  let len := clamp len in
  for_range 0 len (scale_body scalar) tt.

(** Loop state of [sum_simd]: [(i, sum0, sum1, sum2, sum3)]. *)
Definition simd_state : Type := (nat * F * F * F * F)%type.

(** Body of [while i + 3 < len { ... }]. *)
Definition simd_step (st : simd_state) : M F simd_state :=
  let '(i, sum0, sum1, sum2, sum3) := st in
  a0 <- get BUFFER_A i ;;
  a1 <- get BUFFER_A (i + 1) ;;
  a2 <- get BUFFER_A (i + 2) ;;
  a3 <- get BUFFER_A (i + 3) ;;
  ret (i + 4, fadd sum0 a0, fadd sum1 a1, fadd sum2 a2, fadd sum3 a3).

(** Body of [while i < len { sum0 += BUFFER_A.get(i); i += 1; }]. *)
Definition tail_step (st : nat * F) : M F (nat * F) :=
  let '(i, sum0) := st in
  a <- get BUFFER_A i ;;
  ret (i + 1, fadd sum0 a).

(** [pub extern "C" fn sum_simd(len: u32) -> f64]; each loop runs at most
    [len] times, so [S len] is a sufficient budget. *)
Definition sum_simd (len : nat) : M F F :=
  let len := clamp len in
  '(i, sum0, sum1, sum2, sum3) <-
    while_loop (S len) (fun '(i, _, _, _, _) => i + 3 <? len) simd_step
      (0, fzero, fzero, fzero, fzero) ;;
  '(_, sum0) <-
    while_loop (S len) (fun '(i, _) => i <? len) tail_step (i, sum0) ;;
  ret (fadd (fadd (fadd sum0 sum1) sum2) sum3).

End Operations.

(** ** Introspection accessors *)

(** [2^32]: the range of [u32], and the size of the 32-bit linear memory. *)
Definition U32_MODULUS : N := 4294967296.

(** [x as u32]. *)
Definition as_u32 (x : N) : N := N.modulo x U32_MODULUS.

(** Size in bytes of one [StaticBuffer]: [CAPACITY] f64 of 8 bytes. *)
Definition BUFFER_BYTES : N := 800000.

(** Addresses at which the compiler placed the three statics in linear
    memory; they are fixed for the lifetime of the module instance. *)
Record layout := Layout {
  addr_BUFFER_A : N;
  addr_BUFFER_B : N;
  addr_RESULT : N
}.

Definition fits (x : N) : Prop := (x + BUFFER_BYTES <= U32_MODULUS)%N.

Definition disjoint (x y : N) : Prop :=
  (x + BUFFER_BYTES <= y \/ y + BUFFER_BYTES <= x)%N.

(** Distinct statics occupy disjoint byte ranges of the 32-bit memory. *)
Definition layout_ok (ly : layout) : Prop :=
  fits (addr_BUFFER_A ly) /\ fits (addr_BUFFER_B ly) /\ fits (addr_RESULT ly) /\
  disjoint (addr_BUFFER_A ly) (addr_BUFFER_B ly) /\
  disjoint (addr_BUFFER_A ly) (addr_RESULT ly) /\
  disjoint (addr_BUFFER_B ly) (addr_RESULT ly).

(** [addr_of!(BUFFER_A) as u32] *)
Definition get_buffer_a_offset (ly : layout) : N := as_u32 (addr_BUFFER_A ly).

(** [addr_of!(BUFFER_B) as u32] *)
Definition get_buffer_b_offset (ly : layout) : N := as_u32 (addr_BUFFER_B ly).

(** [addr_of!(RESULT) as u32] *)
Definition get_result_offset (ly : layout) : N := as_u32 (addr_RESULT ly).

(** [CAPACITY as u32] *)
Definition get_capacity : N := as_u32 (N.of_nat CAPACITY).

(** A placement of the three buffers one after the other from byte 1024. *)
Definition sample_layout : layout := Layout 1024 801024 1601024.

(** ** Reference algorithms, written from the specification's words *)

Section References.
Context {F : Type} `{Scalar F}.

(** Left-to-right running total of [A[0..n)]: [s = s + A[i]]. *)
Definition sum_spec (A : nat -> F) (n : nat) : F :=
  fold_left (fun s i => fadd s (A i)) (seq 0 n) fzero.

(** Left-to-right running total of [A[i]*B[i]] over [i in [0,n)]. *)
Definition dot_spec (A B : nat -> F) (n : nat) : F :=
  fold_left (fun d i => fadd d (fmul (A i) (B i))) (seq 0 n) fzero.

(** Partial sum number [r] of the unrolled loop after [j] rounds:
    [A[r] + A[4+r] + ... + A[4(j-1)+r]], accumulated from [0.0]. *)
Definition part (A : nat -> F) (r j : nat) : F :=
  fold_left (fun s k => fadd s (A (4 * k + r))) (seq 0 j) fzero.

(** Four partial sums over the [n / 4] complete groups, the leftover
    elements [A[4(n/4)..n)] folded into [sum0] in increasing order, then
    [sum0 + sum1 + sum2 + sum3] from left to right. *)
Definition sum_simd_spec (A : nat -> F) (n : nat) : F :=
  let q := n / 4 in
  let sum0 :=
    fold_left (fun s i => fadd s (A i)) (seq (4 * q) (n - 4 * q)) (part A 0 q) in
  fadd (fadd (fadd sum0 (part A 1 q)) (part A 2 q)) (part A 3 q).

End References.

(** ** Concrete buffer contents *)

(** Buffer contents given by their first elements, zero beyond. *)
Definition of_list (l : list float) : nat -> float :=
  fun i => nth i l 0%float.

(** The specification's scenario: [A = [1,2,3,4]], [B = [10,20,30,40]],
    [RESULT] still all zero. *)
Definition scenario_mem : mem float :=
  Mem (of_list [1%float; 2%float; 3%float; 4%float])
      (of_list [10%float; 20%float; 30%float; 40%float])
      (fun _ => 0%float).

(** Largest finite f64, [f64::MAX]. *)
Definition f64_max : float := 0x1.fffffffffffffp+1023%float.

(** [A = [MAX, MAX, 0, 0, -MAX, -MAX, 0, 0]]: the running total overflows
    at its second step, the four partial sums never do. *)
Definition overflow_mem : mem float :=
  Mem (of_list [f64_max; f64_max; 0%float; 0%float;
                (- f64_max)%float; (- f64_max)%float; 0%float; 0%float])
      (fun _ => 0%float) (fun _ => 0%float).

(** [StaticBuffer::new()]: every buffer starts as [[0.0; CAPACITY]]. *)
Definition new_mem {F} `{Scalar F} : mem F :=
  Mem (fun _ => fzero) (fun _ => fzero) (fun _ => fzero).

(** [scenario_mem] with [A] changed beyond index 4 and [RESULT] changed
    everywhere. *)
Definition scenario_mem' : mem float :=
  Mem (fun i => if i <? 4 then buf_a scenario_mem i else 7%float)
      (buf_b scenario_mem) (fun _ => 5%float).

(** ** Loop lemmas *)

Section LoopLemmas.
Context {F : Type} `{Scalar F}.

Lemma get_in_bounds (b : buffer) (i : nat) (m : mem F) :
  i < CAPACITY -> get b i m = inr (contents m b i, m).
Proof. intros Hi. unfold get. apply Nat.ltb_lt in Hi. now rewrite Hi. Qed.

Lemma set_in_bounds (b : buffer) (i : nat) (v : F) (m : mem F) :
  i < CAPACITY -> set b i v m = inr (tt, store m b i v).
Proof. intros Hi. unfold set. apply Nat.ltb_lt in Hi. now rewrite Hi. Qed.

(** A loop whose body only reads is a left fold over the index range. *)
Lemma for_range_read_only {A} (g : nat -> A -> A) (body : nat -> A -> M F A)
  (lo n : nat) (acc : A) (m : mem F) :
  (forall i a, lo <= i < lo + n -> body i a m = inr (g i a, m)) ->
  for_range lo n body acc m = inr (fold_left (fun a i => g i a) (seq lo n) acc, m).
Proof.
  revert lo acc. induction n as [|n IH]; intros lo acc Hbody; [reflexivity|].
  cbn [for_range seq fold_left]. unfold bind.
  rewrite Hbody by lia. apply IH. intros i a Hi. apply Hbody. lia.
Qed.

Lemma sum_body_read (m : mem F) (i : nat) (s : F) :
  i < CAPACITY -> sum_body i s m = inr (fadd s (buf_a m i), m).
Proof. intros Hi. unfold sum_body, bind. rewrite get_in_bounds by exact Hi. reflexivity. Qed.

Lemma dot_body_read (m : mem F) (i : nat) (d : F) :
  i < CAPACITY -> dot_body i d m = inr (fadd d (fmul (buf_a m i) (buf_b m i)), m).
Proof.
  intros Hi. unfold dot_body, bind.
  rewrite get_in_bounds by exact Hi. rewrite get_in_bounds by exact Hi. reflexivity.
Qed.

Lemma sum_run (n : nat) (m : mem F) :
  n <= CAPACITY -> for_range 0 n sum_body fzero m = inr (sum_spec (buf_a m) n, m).
Proof.
  intros Hn. unfold sum_spec.
  apply (for_range_read_only (fun i s => fadd s (buf_a m i))).
  intros i a Hi. apply sum_body_read. lia.
Qed.

Lemma dot_run (n : nat) (m : mem F) :
  n <= CAPACITY ->
  for_range 0 n dot_body fzero m = inr (dot_spec (buf_a m) (buf_b m) n, m).
Proof.
  intros Hn. unfold dot_spec.
  apply (for_range_read_only (fun i d => fadd d (fmul (buf_a m i) (buf_b m i)))).
  intros i a Hi. apply dot_body_read. lia.
Qed.

Lemma clamp_le (len : nat) : clamp len <= CAPACITY.
Proof. unfold clamp. lia. Qed.

Lemma clamp_id (n : nat) : n <= CAPACITY -> clamp n = n.
Proof. unfold clamp. lia. Qed.

Lemma clamp_above (n : nat) : CAPACITY < n -> clamp n = CAPACITY.
Proof. unfold clamp. lia. Qed.

End LoopLemmas.

Section WriteLemmas.
Context {F : Type} `{Scalar F}.

Lemma update_same (f : nat -> F) (i : nat) (v : F) : update f i v i = v.
Proof. unfold update. now rewrite Nat.eqb_refl. Qed.

Lemma update_other (f : nat -> F) (i j : nat) (v : F) :
  j <> i -> update f i v j = f j.
Proof. intros Hne. unfold update. apply Nat.eqb_neq in Hne. now rewrite Hne. Qed.

(** The loop of [mul] over [lo..lo+n] writes [A[i]*B[i]] into [RESULT[i]]
    on that range and nothing else. *)
Lemma mul_loop (lo n : nat) (m : mem F) :
  lo + n <= CAPACITY ->
  exists m', for_range lo n mul_body tt m = inr (tt, m') /\
    buf_a m' = buf_a m /\ buf_b m' = buf_b m /\
    (forall i, lo <= i < lo + n -> buf_result m' i = fmul (buf_a m i) (buf_b m i)) /\
    (forall i, ~ (lo <= i < lo + n) -> buf_result m' i = buf_result m i).
Proof.
  revert lo m. induction n as [|n IH]; intros lo m Hn.
  - exists m. repeat split; intros; try reflexivity; lia.
  - cbn [for_range]. unfold bind at 1.
    assert (Hb : mul_body lo tt m =
                 inr (tt, store m RESULT lo (fmul (buf_a m lo) (buf_b m lo)))).
    { unfold mul_body, bind. rewrite !get_in_bounds by lia.
      apply set_in_bounds. lia. }
    rewrite Hb.
    destruct (IH (S lo) (store m RESULT lo (fmul (buf_a m lo) (buf_b m lo))))
      as (m' & Hrun & Ha & Hb' & Hin & Hout); [lia|].
    simpl in Ha, Hb', Hin, Hout.
    exists m'. repeat split; try assumption.
    + intros i Hi. destruct (Nat.eq_dec i lo) as [->|Hne].
      * rewrite Hout by lia. apply update_same.
      * apply Hin. lia.
    + intros i Hi. rewrite Hout by lia. apply update_other. lia.
Qed.

(** The loop of [scale k] over [lo..lo+n] multiplies [A[i]] by [k] on that
    range, and changes nothing else. *)
Lemma scale_loop (k : F) (lo n : nat) (m : mem F) :
  lo + n <= CAPACITY ->
  exists m', for_range lo n (scale_body k) tt m = inr (tt, m') /\
    buf_b m' = buf_b m /\ buf_result m' = buf_result m /\
    (forall i, lo <= i < lo + n -> buf_a m' i = fmul (buf_a m i) k) /\
    (forall i, ~ (lo <= i < lo + n) -> buf_a m' i = buf_a m i).
Proof.
  revert lo m. induction n as [|n IH]; intros lo m Hn.
  - exists m. repeat split; intros; try reflexivity; lia.
  - cbn [for_range]. unfold bind at 1.
    assert (Hb : scale_body k lo tt m =
                 inr (tt, store m BUFFER_A lo (fmul (buf_a m lo) k))).
    { unfold scale_body, bind. rewrite get_in_bounds by lia.
      apply set_in_bounds. lia. }
    rewrite Hb.
    destruct (IH (S lo) (store m BUFFER_A lo (fmul (buf_a m lo) k)))
      as (m' & Hrun & Hb' & Hr & Hin & Hout); [lia|].
    simpl in Hb', Hr, Hin, Hout.
    exists m'. repeat split; try assumption.
    + intros i Hi. destruct (Nat.eq_dec i lo) as [->|Hne].
      * rewrite Hout by lia. apply update_same.
      * rewrite Hin by lia. rewrite update_other by exact Hne. reflexivity.
    + intros i Hi. rewrite Hout by lia. apply update_other. lia.
Qed.

End WriteLemmas.

Section SimdLemmas.
Context {F : Type} `{Scalar F}.

Lemma part_S (A : nat -> F) (r j : nat) :
  part A r (S j) = fadd (part A r j) (A (4 * j + r)).
Proof. unfold part. rewrite seq_S, fold_left_app. reflexivity. Qed.

Lemma div4_unique (len j : nat) : 4 * j <= len -> len < 4 * j + 4 -> len / 4 = j.
Proof.
  intros H1 H2. symmetry. apply (Nat.div_unique len 4 j (len - 4 * j)); lia.
Qed.

Lemma div4_bound (len : nat) : 4 * (len / 4) <= len /\ len < 4 * (len / 4) + 4.
Proof.
  pose proof (Nat.div_mod_eq len 4). pose proof (Nat.mod_upper_bound len 4).
  lia.
Qed.

(** The unrolled loop of [sum_simd], entered after [j] rounds, ends at
    [i = 4 * (len / 4)] with the four partial sums of the groups. *)
Lemma simd_loop (len : nat) (m : mem F) (fuel j : nat) :
  len <= CAPACITY -> 4 * j <= len -> len / 4 - j < fuel ->
  while_loop fuel (fun '(i, _, _, _, _) => i + 3 <? len) simd_step
    (4 * j, part (buf_a m) 0 j, part (buf_a m) 1 j, part (buf_a m) 2 j,
     part (buf_a m) 3 j) m
  = inr ((4 * (len / 4), part (buf_a m) 0 (len / 4), part (buf_a m) 1 (len / 4),
          part (buf_a m) 2 (len / 4), part (buf_a m) 3 (len / 4)), m).
Proof.
  revert j. induction fuel as [|fuel IH]; intros j Hcap Hj Hfuel; [lia|].
  cbn [while_loop].
  destruct (4 * j + 3 <? len) eqn:Hc.
  - apply Nat.ltb_lt in Hc.
    unfold simd_step, bind. rewrite !get_in_bounds by lia.
    unfold ret. simpl contents.
    specialize (IH (S j)).
    rewrite !part_S, Nat.add_0_r in IH.
    replace (4 * S j) with (4 * j + 4) in IH by lia.
    apply IH; [exact Hcap | lia | ].
    pose proof (div4_bound len). lia.
  - apply Nat.ltb_ge in Hc.
    rewrite (div4_unique len j) by lia. reflexivity.
Qed.

(** The remainder loop folds [A[i..len)] into [sum0] in increasing order. *)
Lemma tail_loop (len : nat) (m : mem F) (fuel i : nat) (s : F) :
  len <= CAPACITY -> i <= len -> len - i < fuel ->
  while_loop fuel (fun '(i, _) => i <? len) tail_step (i, s) m
  = inr ((len, fold_left (fun s k => fadd s (buf_a m k)) (seq i (len - i)) s), m).
Proof.
  revert i s. induction fuel as [|fuel IH]; intros i s Hcap Hi Hfuel; [lia|].
  cbn [while_loop].
  destruct (i <? len) eqn:Hc.
  - apply Nat.ltb_lt in Hc.
    unfold tail_step, bind. rewrite get_in_bounds by lia.
    unfold ret. simpl contents.
    replace (len - i) with (S (len - (i + 1))) by lia.
    cbn [seq fold_left]. rewrite IH by lia.
    rewrite Nat.add_1_r. reflexivity.
  - apply Nat.ltb_ge in Hc.
    replace i with len by lia. rewrite Nat.sub_diag. reflexivity.
Qed.

Lemma sum_simd_run (n : nat) (m : mem F) :
  n <= CAPACITY ->
  sum_simd n m = inr (sum_simd_spec (buf_a m) n, m).
Proof.
  intros Hn. unfold sum_simd. rewrite (clamp_id n Hn).
  unfold bind at 1.
  pose proof (simd_loop n m (S n) 0 Hn ltac:(lia)) as Hl.
  assert (Hq : n / 4 - 0 < S n) by (pose proof (div4_bound n); lia).
  specialize (Hl Hq).
  change ((0, fzero, fzero, fzero, fzero) : simd_state) with
    ((4 * 0, part (buf_a m) 0 0, part (buf_a m) 1 0, part (buf_a m) 2 0,
      part (buf_a m) 3 0) : simd_state).
  rewrite Hl. cbv beta iota. pose proof (div4_bound n) as [Hq1 Hq2].
  unfold bind. rewrite tail_loop by lia.
  reflexivity.
Qed.

End SimdLemmas.

Section ClampLemmas.
Context {F : Type} `{Scalar F}.

Lemma clamp_clamp (len : nat) : clamp (clamp len) = clamp len.
Proof. unfold clamp. lia. Qed.

(** Each operation only sees its length through [clamp]. *)
Lemma ops_clamp (len : nat) :
  @sum F _ len = sum (clamp len) /\ @dot F _ len = dot (clamp len) /\
  @mul F _ len = mul (clamp len) /\
  (forall k : F, scale k len = scale k (clamp len)) /\
  @sum_simd F _ len = sum_simd (clamp len).
Proof.
  unfold sum, dot, mul, scale, sum_simd. rewrite !clamp_clamp.
  repeat split; reflexivity.
Qed.

Lemma sum_any (len : nat) (m : mem F) :
  sum len m = inr (sum_spec (buf_a m) (clamp len), m).
Proof. apply sum_run, clamp_le. Qed.

Lemma dot_any (len : nat) (m : mem F) :
  dot len m = inr (dot_spec (buf_a m) (buf_b m) (clamp len), m).
Proof. apply dot_run, clamp_le. Qed.

Lemma sum_simd_any (len : nat) (m : mem F) :
  sum_simd len m = inr (sum_simd_spec (buf_a m) (clamp len), m).
Proof.
  destruct (ops_clamp len) as (_ & _ & _ & _ & ->). apply sum_simd_run, clamp_le.
Qed.

Lemma mul_any (len : nat) (m : mem F) :
  exists m', mul len m = inr (tt, m') /\
    buf_a m' = buf_a m /\ buf_b m' = buf_b m /\
    (forall i, i < clamp len -> buf_result m' i = fmul (buf_a m i) (buf_b m i)) /\
    (forall i, clamp len <= i -> buf_result m' i = buf_result m i).
Proof.
  destruct (mul_loop 0 (clamp len) m) as (m' & Hrun & Ha & Hb & Hin & Hout).
  { pose proof (clamp_le len). lia. }
  exists m'. repeat split; try assumption.
  - intros i Hi. apply Hin. lia.
  - intros i Hi. apply Hout. lia.
Qed.

Lemma scale_any (k : F) (len : nat) (m : mem F) :
  exists m', scale k len m = inr (tt, m') /\
    buf_b m' = buf_b m /\ buf_result m' = buf_result m /\
    (forall i, i < clamp len -> buf_a m' i = fmul (buf_a m i) k) /\
    (forall i, clamp len <= i -> buf_a m' i = buf_a m i).
Proof.
  destruct (scale_loop k 0 (clamp len) m) as (m' & Hrun & Hb & Hr & Hin & Hout).
  { pose proof (clamp_le len). lia. }
  exists m'. repeat split; try assumption.
  - intros i Hi. apply Hin. lia.
  - intros i Hi. apply Hout. lia.
Qed.

End ClampLemmas.

(** ** The specification's scenario, evaluated *)

Example scenario_sum : sum 4 scenario_mem = inr (10%float, scenario_mem).
Proof. vm_compute. reflexivity. Qed.

Example scenario_dot : dot 4 scenario_mem = inr (300%float, scenario_mem).
Proof. vm_compute. reflexivity. Qed.

Example scenario_sum_simd : sum_simd 5 scenario_mem = inr (10%float, scenario_mem).
Proof. vm_compute. reflexivity. Qed.

Example scenario_mul :
  match mul 4 scenario_mem with
  | inr (_, m') => map (buf_result m') [0; 1; 2; 3; 4]
  | inl _ => []
  end = [10%float; 40%float; 90%float; 160%float; 0%float].
Proof. vm_compute. reflexivity. Qed.

Example scenario_scale :
  match scale 2%float 4 scenario_mem with
  | inr (_, m') => map (buf_a m') [0; 1; 2; 3; 4]
  | inl _ => []
  end = [2%float; 4%float; 6%float; 8%float; 0%float].
Proof. vm_compute. reflexivity. Qed.

(** ** Claims *)

Section Claims.
Context {F : Type} `{Scalar F}.

(** C1: for [n <= CAPACITY], [sum n] returns the left-to-right running total
    [((0 + A[0]) + A[1]) + ... + A[n-1]] (and leaves the buffers as they
    were). *)
Theorem sum_left_to_right (n : nat) (m : mem F) :
  n <= CAPACITY -> sum n m = inr (sum_spec (buf_a m) n, m).
Proof. intros Hn. rewrite sum_any, clamp_id by exact Hn. reflexivity. Qed.

(** C2: for [n <= CAPACITY], [dot n] returns the left-to-right running total
    of [A[i]*B[i]] over [i in [0,n)]. *)
Theorem dot_left_to_right (n : nat) (m : mem F) :
  n <= CAPACITY -> dot n m = inr (dot_spec (buf_a m) (buf_b m) n, m).
Proof. intros Hn. rewrite dot_any, clamp_id by exact Hn. reflexivity. Qed.

(** C3: for [n <= CAPACITY], after [mul n], [RESULT[i] = A[i]*B[i]] for
    [i < n] and [RESULT[i]] is unchanged for [i >= n]; [A] and [B] are the
    ones before the call. *)
Theorem mul_elementwise (n : nat) (m : mem F) :
  n <= CAPACITY ->
  exists m', mul n m = inr (tt, m') /\
    buf_a m' = buf_a m /\ buf_b m' = buf_b m /\
    (forall i, i < n -> buf_result m' i = fmul (buf_a m i) (buf_b m i)) /\
    (forall i, n <= i -> buf_result m' i = buf_result m i).
Proof.
  intros Hn. destruct (mul_any n m) as (m' & Hrun & Ha & Hb & Hin & Hout).
  rewrite (clamp_id n Hn) in Hin, Hout.
  exists m'. repeat split; assumption.
Qed.

(** C4: for [n <= CAPACITY], after [scale k n], [A[i] = original_A[i]*k]
    for [i < n], [A[i]] is unchanged for [i >= n], and [B] and [RESULT]
    are entirely unchanged. *)
Theorem scale_in_place (k : F) (n : nat) (m : mem F) :
  n <= CAPACITY ->
  exists m', scale k n m = inr (tt, m') /\
    (forall i, i < n -> buf_a m' i = fmul (buf_a m i) k) /\
    (forall i, n <= i -> buf_a m' i = buf_a m i) /\
    buf_b m' = buf_b m /\ buf_result m' = buf_result m.
Proof.
  intros Hn. destruct (scale_any k n m) as (m' & Hrun & Hb & Hr & Hin & Hout).
  rewrite (clamp_id n Hn) in Hin, Hout.
  exists m'. repeat split; assumption.
Qed.

(** C5: for [n <= CAPACITY], [sum_simd n] returns the value of the
    four-partial-sums reference algorithm [sum_simd_spec] on [A[0..n)]. *)
Theorem sum_simd_four_partials (n : nat) (m : mem F) :
  n <= CAPACITY -> sum_simd n m = inr (sum_simd_spec (buf_a m) n, m).
Proof. intros Hn. rewrite sum_simd_any, clamp_id by exact Hn. reflexivity. Qed.

(** C6: for every requested length above [CAPACITY], each of the five
    operations is the same state transformer as with [CAPACITY]; for every
    length, it is the same as with [min len CAPACITY]. *)
Theorem oversize_is_capacity (len : nat) :
  CAPACITY < len ->
  @sum F _ len = sum CAPACITY /\ @dot F _ len = dot CAPACITY /\
  @mul F _ len = mul CAPACITY /\
  (forall k : F, scale k len = scale k CAPACITY) /\
  @sum_simd F _ len = sum_simd CAPACITY /\
  (forall len', @sum F _ len' = sum (Nat.min len' CAPACITY) /\
                @dot F _ len' = dot (Nat.min len' CAPACITY) /\
                @mul F _ len' = mul (Nat.min len' CAPACITY) /\
                (forall k : F, scale k len' = scale k (Nat.min len' CAPACITY)) /\
                @sum_simd F _ len' = sum_simd (Nat.min len' CAPACITY)).
Proof.
  intros Hlen. pose proof (ops_clamp len) as Hc.
  rewrite (clamp_above len Hlen) in Hc.
  destruct Hc as (Hs & Hd & Hm & Hk & Hv).
  refine (conj Hs (conj Hd (conj Hm (conj Hk (conj Hv _))))).
  intros len'. exact (ops_clamp len').
Qed.

(** C7: for every requested length and every buffer state, none of the five
    operations faults: every index given to [get] and [set] is below
    [CAPACITY], in particular the four indices [i .. i+3] of each round of
    the unrolled loop of [sum_simd]. *)
Theorem ops_in_bounds (len : nat) (k : F) (m : mem F) :
  (exists r, sum len m = inr r) /\ (exists r, dot len m = inr r) /\
  (exists r, mul len m = inr r) /\ (exists r, scale k len m = inr r) /\
  (exists r, sum_simd len m = inr r).
Proof.
  split; [|split; [|split; [|split]]].
  - eexists. apply sum_any.
  - eexists. apply dot_any.
  - destruct (mul_any len m) as (m' & Hrun & _). eexists. exact Hrun.
  - destruct (scale_any k len m) as (m' & Hrun & _). eexists. exact Hrun.
  - eexists. apply sum_simd_any.
Qed.

(** C9: [sum], [dot] and [sum_simd] leave all three buffers unchanged, so
    calling one twice in a row returns the same value twice; [mul] leaves
    [A] and [B] unchanged. *)
Theorem read_only_ops (len : nat) (m : mem F) :
  (exists v, sum len m = inr (v, m) /\
     (x <- sum len ;; y <- sum len ;; ret (x, y)) m = inr ((v, v), m)) /\
  (exists v, dot len m = inr (v, m) /\
     (x <- dot len ;; y <- dot len ;; ret (x, y)) m = inr ((v, v), m)) /\
  (exists v, sum_simd len m = inr (v, m) /\
     (x <- sum_simd len ;; y <- sum_simd len ;; ret (x, y)) m = inr ((v, v), m)) /\
  (exists m', mul len m = inr (tt, m') /\ buf_a m' = buf_a m /\ buf_b m' = buf_b m).
Proof.
  split; [|split; [|split]].
  - eexists. split; [apply sum_any|].
    unfold bind at 1. rewrite sum_any. unfold bind. rewrite sum_any. reflexivity.
  - eexists. split; [apply dot_any|].
    unfold bind at 1. rewrite dot_any. unfold bind. rewrite dot_any. reflexivity.
  - eexists. split; [apply sum_simd_any|].
    unfold bind at 1. rewrite sum_simd_any. unfold bind.
    rewrite sum_simd_any. reflexivity.
  - destruct (mul_any len m) as (m' & Hrun & Ha & Hb & _).
    exists m'. auto.
Qed.

End Claims.

(** ** Witnesses: the claims at the specification's scenario *)

Lemma sum_left_to_right_witness :
  4 <= CAPACITY /\
  sum 4 scenario_mem = inr (sum_spec (buf_a scenario_mem) 4, scenario_mem).
Proof.
  assert (Hn : 4 <= CAPACITY) by (apply Nat.leb_le; vm_compute; reflexivity).
  split; [exact Hn | exact (sum_left_to_right 4 scenario_mem Hn)].
Defined.

Lemma dot_left_to_right_witness :
  4 <= CAPACITY /\
  dot 4 scenario_mem
  = inr (dot_spec (buf_a scenario_mem) (buf_b scenario_mem) 4, scenario_mem).
Proof.
  assert (Hn : 4 <= CAPACITY) by (apply Nat.leb_le; vm_compute; reflexivity).
  split; [exact Hn | exact (dot_left_to_right 4 scenario_mem Hn)].
Defined.

Lemma mul_elementwise_witness :
  4 <= CAPACITY /\
  exists m', mul 4 scenario_mem = inr (tt, m') /\
    buf_a m' = buf_a scenario_mem /\ buf_b m' = buf_b scenario_mem /\
    (forall i, i < 4 ->
       buf_result m' i = fmul (buf_a scenario_mem i) (buf_b scenario_mem i)) /\
    (forall i, 4 <= i -> buf_result m' i = buf_result scenario_mem i).
Proof.
  assert (Hn : 4 <= CAPACITY) by (apply Nat.leb_le; vm_compute; reflexivity).
  split; [exact Hn | exact (mul_elementwise 4 scenario_mem Hn)].
Defined.

Lemma scale_in_place_witness :
  4 <= CAPACITY /\
  exists m', scale 2%float 4 scenario_mem = inr (tt, m') /\
    (forall i, i < 4 -> buf_a m' i = fmul (buf_a scenario_mem i) 2%float) /\
    (forall i, 4 <= i -> buf_a m' i = buf_a scenario_mem i) /\
    buf_b m' = buf_b scenario_mem /\ buf_result m' = buf_result scenario_mem.
Proof.
  assert (Hn : 4 <= CAPACITY) by (apply Nat.leb_le; vm_compute; reflexivity).
  split; [exact Hn | exact (scale_in_place 2%float 4 scenario_mem Hn)].
Defined.

Lemma sum_simd_four_partials_witness :
  7 <= CAPACITY /\
  sum_simd 7 scenario_mem
  = inr (sum_simd_spec (buf_a scenario_mem) 7, scenario_mem).
Proof.
  assert (Hn : 7 <= CAPACITY) by (apply Nat.leb_le; vm_compute; reflexivity).
  split; [exact Hn | exact (sum_simd_four_partials 7 scenario_mem Hn)].
Defined.

Lemma oversize_is_capacity_witness :
  CAPACITY < 100001 /\ @sum float _ 100001 = sum CAPACITY /\
  @sum_simd float _ 100001 = sum_simd CAPACITY.
Proof.
  assert (Hn : CAPACITY < 100001) by (apply Nat.ltb_lt; vm_compute; reflexivity).
  destruct (oversize_is_capacity (F := float) 100001 Hn) as (Hs & _ & _ & _ & Hv & _).
  split; [exact Hn | split; [exact Hs | exact Hv]].
Defined.

(** ** [sum_simd] against [sum] *)

(** In f64, [sum_simd] and [sum] are not within any finite distance of each
    other on every input: with [A = [MAX, MAX, 0, 0, -MAX, -MAX, 0, 0]]
    and [n = 8], the running total of [sum] overflows to [+inf] while the
    partial sums of [sum_simd] never overflow and it returns [0.0]; the gap
    [abs(sum_simd(8) - sum(8))] is infinite, larger than every finite f64. *)
Lemma sum_simd_sum_overflow_gap :
  sum 8 overflow_mem = inr (infinity, overflow_mem) /\
  sum_simd 8 overflow_mem = inr (0%float, overflow_mem) /\
  PrimFloat.abs (PrimFloat.sub 0%float infinity) = infinity /\
  PrimFloat.ltb f64_max (PrimFloat.abs (PrimFloat.sub 0%float infinity)) = true.
Proof. vm_compute. repeat split; reflexivity. Qed.

(** C10: [get_buffer_a_offset], [get_buffer_b_offset] and
    [get_result_offset] depend only on the fixed placement of the statics,
    so every call returns the same value; for any valid placement the three
    values are pairwise distinct; [get_capacity] is [100000]. *)
Theorem offsets_distinct_capacity (ly : layout) :
  layout_ok ly ->
  get_buffer_a_offset ly <> get_buffer_b_offset ly /\
  get_buffer_a_offset ly <> get_result_offset ly /\
  get_buffer_b_offset ly <> get_result_offset ly /\
  get_capacity = 100000%N.
Proof.
  destruct ly as [a b r].
  unfold layout_ok, fits, disjoint, get_buffer_a_offset, get_buffer_b_offset,
    get_result_offset, as_u32; simpl.
  unfold BUFFER_BYTES, U32_MODULUS.
  intros (Ha & Hb & Hr & Hab & Har & Hbr).
  rewrite !N.mod_small by lia.
  split; [lia | split; [lia | split; [lia | ]]].
  vm_compute. reflexivity.
Qed.

Lemma offsets_distinct_capacity_witness :
  layout_ok sample_layout /\
  get_buffer_a_offset sample_layout <> get_buffer_b_offset sample_layout /\
  get_capacity = 100000%N.
Proof.
  assert (Hok : layout_ok sample_layout).
  { unfold layout_ok, fits, disjoint, BUFFER_BYTES, U32_MODULUS; simpl; lia. }
  destruct (offsets_distinct_capacity sample_layout Hok) as (Hab & _ & _ & Hc).
  split; [exact Hok | split; [exact Hab | exact Hc]].
Defined.

(** ** Further properties of the kernel *)

Section FoldFacts.
Context {F : Type} `{Scalar F}.

Lemma fold_left_fixed {A} (f : F -> A -> F) (l : list A) (a : F) :
  (forall x, f a x = a) -> fold_left f l a = a.
Proof.
  intros Hf. induction l as [|x l IH]; simpl; [reflexivity|].
  rewrite Hf. exact IH.
Qed.

Lemma fold_left_ext_in {A} (f g : F -> A -> F) (l : list A) (a : F) :
  (forall s x, In x l -> f s x = g s x) -> fold_left f l a = fold_left g l a.
Proof.
  revert a. induction l as [|x l IH]; intros a Hfg; simpl; [reflexivity|].
  rewrite Hfg by (left; reflexivity).
  apply IH. intros s y Hy. apply Hfg. right. exact Hy.
Qed.

Lemma sum_spec_local (A1 A2 : nat -> F) (n : nat) :
  (forall i, i < n -> A1 i = A2 i) -> sum_spec A1 n = sum_spec A2 n.
Proof.
  intros Heq. unfold sum_spec. apply fold_left_ext_in.
  intros s i Hi. apply in_seq in Hi. rewrite Heq by lia. reflexivity.
Qed.

Lemma dot_spec_local (A1 B1 A2 B2 : nat -> F) (n : nat) :
  (forall i, i < n -> A1 i = A2 i /\ B1 i = B2 i) ->
  dot_spec A1 B1 n = dot_spec A2 B2 n.
Proof.
  intros Heq. unfold dot_spec. apply fold_left_ext_in.
  intros s i Hi. apply in_seq in Hi. destruct (Heq i) as [-> ->]; [lia|reflexivity].
Qed.

Lemma part_local (A1 A2 : nat -> F) (r q : nat) :
  (forall i, i < 4 * q -> A1 i = A2 i) -> r < 4 -> part A1 r q = part A2 r q.
Proof.
  intros Heq Hr. unfold part. apply fold_left_ext_in.
  intros s k Hk. apply in_seq in Hk. rewrite Heq by lia. reflexivity.
Qed.

Lemma sum_simd_spec_local (A1 A2 : nat -> F) (n : nat) :
  (forall i, i < n -> A1 i = A2 i) -> sum_simd_spec A1 n = sum_simd_spec A2 n.
Proof.
  intros Heq. pose proof (div4_bound n) as [Hq _].
  unfold sum_simd_spec.
  rewrite !(part_local A1 A2) by first [lia | intros; apply Heq; lia].
  f_equal. f_equal. f_equal.
  apply fold_left_ext_in. intros s i Hi. apply in_seq in Hi.
  rewrite Heq by lia. reflexivity.
Qed.

End FoldFacts.

Section Extras.
Context {F : Type} `{Scalar F}.

(** Extra: [sum (n+1)] extends [sum n] by one step [s + A[n]], and
    [dot (n+1)] extends [dot n] by [d + A[n]*B[n]], below [CAPACITY]. *)
Theorem sum_dot_step (n : nat) (m : mem F) :
  n < CAPACITY ->
  (exists v, sum n m = inr (v, m) /\ sum (S n) m = inr (fadd v (buf_a m n), m)) /\
  (exists d, dot n m = inr (d, m) /\
     dot (S n) m = inr (fadd d (fmul (buf_a m n) (buf_b m n)), m)).
Proof.
  intros Hn. split.
  - exists (sum_spec (buf_a m) n). rewrite !sum_any, !clamp_id by lia.
    split; [reflexivity|]. unfold sum_spec. rewrite seq_S, fold_left_app. reflexivity.
  - exists (dot_spec (buf_a m) (buf_b m) n). rewrite !dot_any, !clamp_id by lia.
    split; [reflexivity|]. unfold dot_spec. rewrite seq_S, fold_left_app. reflexivity.
Qed.

(** Extra: [sum len] and [sum_simd len] read nothing but [A[0..min(len,
    CAPACITY))]: two buffer states that agree there give the same results. *)
Theorem sum_reads_prefix (len : nat) (m1 m2 : mem F) :
  (forall i, i < clamp len -> buf_a m1 i = buf_a m2 i) ->
  (exists v, sum len m1 = inr (v, m1) /\ sum len m2 = inr (v, m2)) /\
  (exists v, sum_simd len m1 = inr (v, m1) /\ sum_simd len m2 = inr (v, m2)).
Proof.
  intros Heq. split.
  - eexists. rewrite !sum_any. split; [reflexivity|].
    rewrite (sum_spec_local (buf_a m1) (buf_a m2)) by exact Heq. reflexivity.
  - eexists. rewrite !sum_simd_any. split; [reflexivity|].
    rewrite (sum_simd_spec_local (buf_a m1) (buf_a m2)) by exact Heq. reflexivity.
Qed.

(** Extra: [dot len] reads nothing but [A] and [B] on [[0, min(len,
    CAPACITY))]. *)
Theorem dot_reads_prefix (len : nat) (m1 m2 : mem F) :
  (forall i, i < clamp len -> buf_a m1 i = buf_a m2 i /\ buf_b m1 i = buf_b m2 i) ->
  exists v, dot len m1 = inr (v, m1) /\ dot len m2 = inr (v, m2).
Proof.
  intros Heq. eexists. rewrite !dot_any. split; [reflexivity|].
  rewrite (dot_spec_local (buf_a m1) (buf_b m1) (buf_a m2) (buf_b m2)) by exact Heq.
  reflexivity.
Qed.

(** Extra: [mul] is idempotent: a second [mul len] leaves every buffer as
    the first one left it. *)
Theorem mul_idempotent (len : nat) (m : mem F) :
  exists m1 m2, mul len m = inr (tt, m1) /\ mul len m1 = inr (tt, m2) /\
    buf_a m2 = buf_a m1 /\ buf_b m2 = buf_b m1 /\
    (forall i, buf_result m2 i = buf_result m1 i).
Proof.
  destruct (mul_any len m) as (m1 & Hr1 & Ha1 & Hb1 & Hin1 & Hout1).
  destruct (mul_any len m1) as (m2 & Hr2 & Ha2 & Hb2 & Hin2 & Hout2).
  exists m1, m2. split; [exact Hr1|]. split; [exact Hr2|].
  split; [exact Ha2|]. split; [exact Hb2|].
  intros i. destruct (Nat.lt_ge_cases i (clamp len)) as [Hi|Hi].
  - rewrite Hin2, Hin1, Ha1, Hb1 by exact Hi. reflexivity.
  - apply Hout2. exact Hi.
Qed.

(** Extra: [mul] does not change what [sum], [dot] and [sum_simd] return
    afterwards, whatever the lengths. *)
Theorem mul_preserves_reductions (len len' : nat) (m : mem F) :
  exists m1, mul len m = inr (tt, m1) /\
    (exists v, sum len' m = inr (v, m) /\ sum len' m1 = inr (v, m1)) /\
    (exists v, dot len' m = inr (v, m) /\ dot len' m1 = inr (v, m1)) /\
    (exists v, sum_simd len' m = inr (v, m) /\ sum_simd len' m1 = inr (v, m1)).
Proof.
  destruct (mul_any len m) as (m1 & Hr & Ha & Hb & _).
  exists m1. split; [exact Hr|].
  split; [|split].
  - eexists. rewrite !sum_any, Ha. split; reflexivity.
  - eexists. rewrite !dot_any, Ha, Hb. split; reflexivity.
  - eexists. rewrite !sum_simd_any, Ha. split; reflexivity.
Qed.

(** Extra: [scale k len] followed by [mul len] leaves
    [RESULT[i] = (A[i]*k)*B[i]] below [min(len, CAPACITY)], with [B]
    untouched. *)
Theorem scale_then_mul (k : F) (len : nat) (m : mem F) :
  exists m1 m2, scale k len m = inr (tt, m1) /\ mul len m1 = inr (tt, m2) /\
    buf_b m2 = buf_b m /\
    (forall i, i < clamp len ->
       buf_result m2 i = fmul (fmul (buf_a m i) k) (buf_b m i)).
Proof.
  destruct (scale_any k len m) as (m1 & Hr1 & Hb1 & _ & Hin1 & _).
  destruct (mul_any len m1) as (m2 & Hr2 & _ & Hb2 & Hin2 & _).
  exists m1, m2. split; [exact Hr1|]. split; [exact Hr2|].
  split; [rewrite Hb2; exact Hb1|].
  intros i Hi. rewrite Hin2, Hin1, Hb1 by exact Hi. reflexivity.
Qed.

(** Extra: two [scale] calls compose elementwise: after [scale k len] then
    [scale k' len], [A[i] = (A[i]*k)*k'] below [min(len, CAPACITY)] and
    is unchanged above; [B] and [RESULT] are untouched. *)
Theorem scale_twice (k k' : F) (len : nat) (m : mem F) :
  exists m1 m2, scale k len m = inr (tt, m1) /\ scale k' len m1 = inr (tt, m2) /\
    (forall i, i < clamp len -> buf_a m2 i = fmul (fmul (buf_a m i) k) k') /\
    (forall i, clamp len <= i -> buf_a m2 i = buf_a m i) /\
    buf_b m2 = buf_b m /\ buf_result m2 = buf_result m.
Proof.
  destruct (scale_any k len m) as (m1 & Hr1 & Hb1 & Hres1 & Hin1 & Hout1).
  destruct (scale_any k' len m1) as (m2 & Hr2 & Hb2 & Hres2 & Hin2 & Hout2).
  exists m1, m2. split; [exact Hr1|]. split; [exact Hr2|].
  split; [intros i Hi; rewrite Hin2, Hin1 by exact Hi; reflexivity|].
  split; [intros i Hi; rewrite Hout2, Hout1 by exact Hi; reflexivity|].
  split; congruence.
Qed.

(** Extra: below 4 elements the unrolled loop of [sum_simd] never runs:
    the result is the running total of [sum] with the three untouched
    partial sums [0.0] added to it in turn. *)
Theorem sum_simd_short (len : nat) (m : mem F) :
  len < 4 ->
  sum_simd len m
  = inr (fadd (fadd (fadd (sum_spec (buf_a m) len) fzero) fzero) fzero, m).
Proof.
  intros Hl. rewrite sum_simd_any.
  assert (H4 : 4 <= CAPACITY) by (apply Nat.leb_le; vm_compute; reflexivity).
  assert (Hc : clamp len = len) by (apply clamp_id; lia).
  rewrite Hc. unfold sum_simd_spec.
  rewrite (Nat.div_small len 4 Hl), Nat.mul_0_r, Nat.sub_0_r. reflexivity.
Qed.

End Extras.

(** Extra: on freshly initialised buffers ([StaticBuffer::new()], all
    [0.0]), [sum], [dot] and [sum_simd] return [0.0] for every requested
    length, and [mul] leaves [RESULT] all [0.0]. *)
Theorem fresh_buffers_zero (len : nat) :
  sum len new_mem = inr (0%float, new_mem) /\
  dot len new_mem = inr (0%float, new_mem) /\
  sum_simd len new_mem = inr (0%float, new_mem) /\
  exists m', mul len new_mem = inr (tt, m') /\
    forall i, buf_result m' i = 0%float.
Proof.
  assert (Hp : forall r q, part (buf_a (@new_mem float _)) r q = 0%float).
  { intros r q. unfold part.
    apply fold_left_fixed. intros x. vm_compute. reflexivity. }
  split; [|split; [|split]].
  - rewrite sum_any. unfold sum_spec. rewrite fold_left_fixed; [reflexivity|].
    intros x. vm_compute. reflexivity.
  - rewrite dot_any. unfold dot_spec. rewrite fold_left_fixed; [reflexivity|].
    intros x. vm_compute. reflexivity.
  - rewrite sum_simd_any. unfold sum_simd_spec. rewrite !Hp.
    rewrite fold_left_fixed; [vm_compute; reflexivity|].
    intros x. vm_compute. reflexivity.
  - destruct (mul_any len (@new_mem float _)) as (m' & Hr & _ & _ & Hin & Hout).
    exists m'. split; [exact Hr|]. intros i.
    destruct (Nat.lt_ge_cases i (clamp len)) as [Hi|Hi].
    + rewrite Hin by exact Hi. vm_compute. reflexivity.
    + rewrite Hout by exact Hi. reflexivity.
Qed.

(** Extra: a request of length [0] touches nothing: [sum], [dot] and
    [sum_simd] return [0.0] and [mul] and [scale] return with every buffer
    exactly as before. *)
Theorem zero_length_noop (m : mem float) (k : float) :
  sum 0 m = inr (0%float, m) /\ dot 0 m = inr (0%float, m) /\
  sum_simd 0 m = inr (0%float, m) /\
  mul 0 m = inr (tt, m) /\ scale k 0 m = inr (tt, m).
Proof.
  split; [|split; [|split; [|split]]]; vm_compute; reflexivity.
Qed.

(** ** Witnesses of the further properties *)

Lemma sum_dot_step_witness :
  3 < CAPACITY /\
  (exists v, sum 3 scenario_mem = inr (v, scenario_mem) /\
     sum 4 scenario_mem = inr (fadd v (buf_a scenario_mem 3), scenario_mem)) /\
  (exists d, dot 3 scenario_mem = inr (d, scenario_mem) /\
     dot 4 scenario_mem
     = inr (fadd d (fmul (buf_a scenario_mem 3) (buf_b scenario_mem 3)), scenario_mem)).
Proof.
  assert (Hn : 3 < CAPACITY) by (apply Nat.ltb_lt; vm_compute; reflexivity).
  split; [exact Hn | exact (sum_dot_step 3 scenario_mem Hn)].
Defined.

Lemma scenario_agree_below_4 :
  forall i, i < clamp 4 ->
  buf_a scenario_mem i = buf_a scenario_mem' i /\
  buf_b scenario_mem i = buf_b scenario_mem' i.
Proof.
  intros i Hi. change (clamp 4) with 4 in Hi.
  apply Nat.ltb_lt in Hi. unfold scenario_mem'. cbn [buf_a buf_b].
  rewrite Hi. split; reflexivity.
Qed.

Lemma sum_reads_prefix_witness :
  (forall i, i < clamp 4 -> buf_a scenario_mem i = buf_a scenario_mem' i) /\
  (exists v, sum 4 scenario_mem = inr (v, scenario_mem) /\
     sum 4 scenario_mem' = inr (v, scenario_mem')) /\
  (exists v, sum_simd 4 scenario_mem = inr (v, scenario_mem) /\
     sum_simd 4 scenario_mem' = inr (v, scenario_mem')).
Proof.
  assert (Heq : forall i, i < clamp 4 -> buf_a scenario_mem i = buf_a scenario_mem' i).
  { intros i Hi. apply (scenario_agree_below_4 i Hi). }
  split; [exact Heq | exact (sum_reads_prefix 4 scenario_mem scenario_mem' Heq)].
Defined.

Lemma dot_reads_prefix_witness :
  (forall i, i < clamp 4 ->
     buf_a scenario_mem i = buf_a scenario_mem' i /\
     buf_b scenario_mem i = buf_b scenario_mem' i) /\
  exists v, dot 4 scenario_mem = inr (v, scenario_mem) /\
    dot 4 scenario_mem' = inr (v, scenario_mem').
Proof.
  split; [exact scenario_agree_below_4 |].
  exact (dot_reads_prefix 4 scenario_mem scenario_mem' scenario_agree_below_4).
Defined.

Lemma sum_simd_short_witness :
  3 < 4 /\
  sum_simd 3 scenario_mem
  = inr (fadd (fadd (fadd (sum_spec (buf_a scenario_mem) 3) fzero) fzero) fzero,
         scenario_mem).
Proof.
  assert (Hl : 3 < 4) by lia.
  split; [exact Hl | exact (sum_simd_short 3 scenario_mem Hl)].
Defined.
